(** * wechaty: the abstract [Message] class of [src/puppet/message.ts]

  The file declares one abstract class.  Its concrete members
  ([find], [findAll], [create], the constructor, [toString] and the
  retired [content]) are embedded below from the TypeScript source; the
  members it only declares ([ready], [to], [room], [say], [mentioned],
  [forward], ...) have no body in this file and are treated separately. *)

From stdpp Require Import base strings list gmap.
From Stdlib Require Import ZArith.

Local Open Scope string_scope.
Local Open Scope list_scope.

(** ** JavaScript values, exceptions and effects *)

Module Js.

(** The values that reach the class through [any]-typed parameters.
    Object literals of the file only hold string properties. *)
Inductive JsAny : Type :=
| Undefined
| Null
| Bool (b : bool)
| Num (n : Z)
| Str (s : string)
| Obj (props : gmap string string).

(** ToBoolean. *)
Definition truthy (v : JsAny) : bool :=
  match v with
  | Undefined | Null => false
  | Bool b => b
  | Num n => negb (n =? 0)%Z
  | Str s => negb (String.eqb s "")
  | Obj _ => true
  end.

(** [a || b]. *)
Definition or (a b : JsAny) : JsAny := if truthy a then a else b.

(** [args[i]] of a rest parameter: [undefined] past the end. *)
Definition arg (args : list JsAny) (i : nat) : JsAny :=
  default Undefined (args !! i).

(** Outcome of an evaluation: a value, or a thrown exception (for an
    [async] function: a fulfilled or a rejected promise). *)
Inductive Result (X A : Type) : Type :=
| Ok (a : A)
| Throw (x : X).
Arguments Ok {X A} a.
Arguments Throw {X A} x.

Definition rbind {X A B} (r : Result X A) (k : A → Result X B) : Result X B :=
  match r with
  | Ok a => k a
  | Throw x => Throw x
  end.

(** Effectful code threads a state [S]; effects done before a throw
    stay done. *)
Definition M (S X A : Type) : Type := S → Result X A * S.

Definition ret {S X A} (a : A) : M S X A := λ s, (Ok a, s).
Definition throw {S X A} (x : X) : M S X A := λ s, (Throw x, s).
Definition bind {S X A B} (m : M S X A) (k : A → M S X B) : M S X B :=
  λ s, match m s with
       | (Ok a, s') => k a s'
       | (Throw x, s') => (Throw x, s')
       end.
Definition get {S X} : M S X S := λ s, (Ok s, s).
Definition modify {S X} (f : S → S) : M S X unit := λ s, (Ok tt, f s).
Definition lift {S X A} (r : Result X A) : M S X A := λ s, (r, s).

(** [new Error(message)], the only exception the file constructs. *)
Inductive Exception : Type :=
| Error (message : string).

(** [needle] occurs in [s] ([String.prototype.includes]). *)
Fixpoint includes (s needle : string) : bool :=
  String.prefix needle s
  || match s with
     | EmptyString => false
     | String _ s' => includes s' needle
     end.

End Js.

Import Js.

Declare Scope js_scope.
Delimit Scope js_scope with js.
Notation "'let!' x ':=' m 'in' k" := (rbind m (λ x, k))
  (at level 10, x name, m at level 100, k at level 200, only parsing) : js_scope.
Notation "'do!' x '<-' m ';' k" := (bind m (λ x, k))
  (at level 10, x name, m at level 100, k at level 200, only parsing) : js_scope.
Local Open Scope js_scope.

(** ** The class [Message] *)

Module Message.

(** One line handed to [log.silly]: prefix, format string and the
    values for its [%s] places. *)
Record LogLine : Type := mkLogLine {
  log_prefix : string;
  log_format : string;
  log_args : list JsAny;
}.

(** What the static members act on: the objects created so far (an
    object reference is its index) and the lines logged at level
    [silly]. *)
Record World (E : Type) : Type := mkWorld {
  objects : list E;
  silly : list LogLine;
}.
Arguments mkWorld {E} objects silly.
Arguments objects {E} w.
Arguments silly {E} w.

Definition Ref : Type := nat.

Definition alloc {E X} (e : E) : M (World E) X Ref :=
  λ w, (Ok (length (objects w)),
        mkWorld (objects w ++ [e]) (silly w)).

Definition log_silly {E X} (prefix format : string) (args : list JsAny)
  : M (World E) X unit :=
  modify (λ w, mkWorld (objects w) (silly w ++ [mkLogLine prefix format args])).

(** The part of an instance that [Message] itself declares: the
    [readonly fileOrPayload] parameter property. *)
Record Fields : Type := mkFields {
  fileOrPayload : JsAny;
}.

(** [constructor(fileOrPayload?)], run for an instance of the class
    named [child]: [super()], the parameter property, one log line.
    The constructor of [PuppetAccessory] is outside this file and is
    taken to add nothing. *)
Definition constructor {X} (child : string) (args : list JsAny)
  : M (World Fields) X Ref :=
  do! this <- alloc (mkFields (arg args 0));
  do! _ <- log_silly "Message" "constructor(%s) for child class %s"
                [or (arg args 0) (Str ""); Str child];
  ret this.

(** A constructor function [T extends typeof Message], as the static
    members see it through [this]: its name and what [new this(...)]
    does. *)
Record Class (E X : Type) : Type := mkClass {
  name : string;
  new : list JsAny → M (World E) X Ref;
}.
Arguments mkClass {E X} name new.
Arguments name {E X} c.
Arguments new {E X} c args.

(** [Message] itself taken as [this]. *)
Definition Message {X} : Class Fields X :=
  mkClass "Message" (constructor "Message").

Definition payload_id1 : gmap string string := {[ "MsgId" := "id1" ]}.
Definition payload_id2 : gmap string string := {[ "MsdId" := "id2" ]}.

(** [static async findAll(query)]. *)
Definition findAll {E X} (this : Class E X) (query : JsAny)
  : M (World E) X (list Ref) :=
  do! m1 <- new this [Obj payload_id1];
  do! m2 <- new this [Obj payload_id2];
  ret [m1; m2].

(** [static async find(query)], for a [this] whose [findAll] is
    [this_findAll]: [(await this.findAll(query))[0]].  Indexing past
    the end of an array gives no element. *)
Definition find_with {E X} (this_findAll : JsAny → M (World E) X (list Ref))
    (query : JsAny) : M (World E) X (option Ref) :=
  do! list <- this_findAll query;
  ret (list !! 0).

(** [find] on a class that inherits [findAll]. *)
Definition find {E X} (this : Class E X) (query : JsAny)
  : M (World E) X (option Ref) :=
  find_with (findAll this) query.

(** [static create(...args)]. *)
Definition create {E X} (this : Class E X) (args : list JsAny)
  : M (World E) X Ref :=
  new this args.

(** *** Instance members *)

(** The part of [../puppet-puppeteer/schema] the class reads, taken as a
    parameter because that file is not part of this one: the enumeration
    [WebMsgType], its member [TEXT] and its reverse mapping
    [WebMsgType[value]], which is [undefined] for a value without a
    name. *)
Record Schema : Type := mkSchema {
  WebMsgType : Type;
  WebMsgType_eq : EqDecision WebMsgType;
  TEXT : WebMsgType;
  WebMsgType_name : WebMsgType → option string;
}.

(** The abstract getters [toString] calls, supplied by the concrete
    subclass for its instances of state [E]; a getter may throw. *)
Record Methods (sch : Schema) (E X : Type) : Type := mkMethods {
  type : E → Result X (WebMsgType sch);
  text : E → Result X string;
  filename : E → Result X (option string);
}.
Arguments mkMethods {sch E X} type text filename.
Arguments type {sch E X} m this.
Arguments text {sch E X} m this.
Arguments filename {sch E X} m this.

(** A value placed in a template literal. *)
Definition show_name (n : option string) : string := default "undefined" n.
Definition show_nullable (n : option string) : string := default "null" n.

Definition label (kind body : string) : string :=
  "Message#" +:+ kind +:+ "<" +:+ body +:+ ">".

(** [toString()]. *)
Definition toString {sch E X} (m : Methods sch E X) (this : E)
  : Result X string :=
  let! t := type m this in
  if @decide _ (WebMsgType_eq sch t (TEXT sch))
  then
    let! t' := type m this in
    let! body := text m this in
    Ok (label (show_name (WebMsgType_name sch t')) body)
  else
    let! t' := type m this in
    let! body := filename m this in
    Ok (label (show_name (WebMsgType_name sch t')) (show_nullable body)).

Definition deprecated : string :=
  "Deprecated. Use `text()` instead of `content()`. See https://github.com/Chatie/wechaty/issues/1163".

(** [content(text?)]: the body is a single [throw]. *)
Definition content {E} (this : E) (text : option string)
  : Result Exception JsAny :=
  Throw (Error deprecated).

End Message.

(** ** The members [Message] only declares

    [ready], [from], [to], [room], [text], [mentioned], [say], [forward]
    and the attachment getters are [abstract] in [message.ts]; their
    bodies live in the concrete subclasses, which are not in this file.
    What they do is taken from the design document of the class. *)

Module Core.

(** Modelled from the spec: the hydration marker of the data model
    (the subclass field behind [ready()] is missing). *)
Inductive HydrationState : Type := RAW | HYDRATING | READY.

(** Modelled from the spec: the error taxonomy (no subclass is present
    to show what is thrown). *)
Inductive Failure : Type :=
| NotHydrated
| HydrationError
| DanglingReferenceError
| UnsupportedOperation
| SendFailure.

(** Modelled from the spec: the message kinds of the data model; the
    enumeration [WebMsgType] itself is missing. *)
Inductive Kind : Type := TEXT | MEDIA | APP | LOCATION | RECALLED.

#[export] Instance Kind_eq_dec : EqDecision Kind.
Proof. solve_decision. Defined.

Definition Kind_name (k : Kind) : string :=
  match k with
  | TEXT => "TEXT"
  | MEDIA => "MEDIA"
  | APP => "APP"
  | LOCATION => "LOCATION"
  | RECALLED => "RECALLED"
  end.

(** Modelled from the spec: records owned by Directory Services
    ([./contact] and [./room] are missing); a message refers to them by
    identifier. *)
Record Contact : Type := mkContact {
  contact_id : string;
  displayName : string;
}.

Record Room : Type := mkRoom {
  room_id : string;
  topic : string;
}.

(** Modelled from the spec: the raw payload the Transport Session
    returns for a message id, with the references still identifiers. *)
Record RawPayload : Type := mkRawPayload {
  raw_id : string;
  raw_kind : Kind;
  raw_subKind : Kind;
  raw_appKind : option nat;
  raw_sender : string;
  raw_recipient : option string;
  raw_room : option string;
  raw_text : string;
  raw_filename : option string;
  raw_extension : string;
  raw_mimeType : option string;
  raw_mentions : list string;
}.

Module Data.

(** Modelled from the spec: the fields of the data model that
    hydration fills in.  [sender] is a [Contact], not a nullable one:
    it is never null after hydration. *)
Record Resolved : Type := mkResolved {
  payload : RawPayload;
  kind : Kind;
  subKind : Kind;
  appKind : option nat;
  sender : Contact;
  recipient : option Contact;
  room : option Room;
  text : string;
  filename : option string;
  extension : string;
  mimeType : option string;
  mentions : list Contact;
  self : bool;
}.

End Data.

(** Modelled from the spec: a Message Entity, an immutable [id], the
    hydration marker and the fields present once hydrated. *)
Record Entity : Type := mkEntity {
  id : string;
  hydrationState : HydrationState;
  fields : option Data.Resolved;
}.

(** Modelled from the spec: [Message.create(rawPayloadOrId)] gives a RAW
    entity (the subclass constructor is missing). *)
Definition create (rawPayloadOrId : string + RawPayload) : Entity :=
  mkEntity (match rawPayloadOrId with
            | inl i => i
            | inr p => raw_id p
            end) RAW None.

Inductive Target : Type :=
| ToContact (c : Contact)
| ToRoom (r : Room).

Inductive Content : Type :=
| Text (s : string)
| Payload (p : RawPayload).

(** One call of [TransportSession.send(target, content, mentions?)]. *)
Record Send : Type := mkSend {
  send_target : Target;
  send_content : Content;
  send_mentions : option (list Contact);
}.

(** Modelled from the spec: the external collaborators, which the core
    reads and never changes.  [payloads] is what [fetchPayload] answers
    (no entry: unreachable), [acks] whether a [send] is acknowledged,
    [account] the identifier of the local account. *)
Record Collaborators : Type := mkCollaborators {
  contacts : gmap string Contact;
  rooms : gmap string Room;
  payloads : gmap string RawPayload;
  acks : Send → bool;
  account : string;
}.

(** What a method call on one entity can change or emit: the receiver,
    the fetches and sends issued to the Transport Session, and the
    warnings recorded by the Mention Resolver. *)
Record State : Type := mkState {
  this : Entity;
  fetches : list string;
  outbox : list Send;
  warnings : list string;
}.

Definition Op (A : Type) : Type := M State Failure A.

Definition set_this (e : Entity) : Op unit :=
  modify (λ s, mkState e (fetches s) (outbox s) (warnings s)).

Definition record_fetch (i : string) : Op unit :=
  modify (λ s, mkState (this s) (fetches s ++ [i]) (outbox s) (warnings s)).

Definition record_send (c : Send) : Op unit :=
  modify (λ s, mkState (this s) (fetches s) (outbox s ++ [c]) (warnings s)).

Definition warn (i : string) : Op unit :=
  modify (λ s, mkState (this s) (fetches s) (outbox s) (warnings s ++ [i])).

(** Modelled from the spec: the guard of the accessors that need the
    full payload ([NotHydrated] before [ready()] completes). *)
Definition hydrated (e : Entity) : Result Failure Data.Resolved :=
  match hydrationState e, fields e with
  | READY, Some r => Ok r
  | _, _ => Throw NotHydrated
  end.

(** Modelled from the spec: the zero-argument accessors (the subclass
    bodies of [from()], [to()], [room()], [text()], [mentioned()],
    [filename()], [mimeType()], [type()] are missing). *)
Definition from (e : Entity) : Result Failure Contact :=
  let! r := hydrated e in Ok (Data.sender r).

Definition to (e : Entity) : Result Failure (option Contact) :=
  let! r := hydrated e in Ok (Data.recipient r).

Definition room (e : Entity) : Result Failure (option Room) :=
  let! r := hydrated e in Ok (Data.room r).

Definition text (e : Entity) : Result Failure string :=
  let! r := hydrated e in Ok (Data.text r).

Definition mentioned (e : Entity) : Result Failure (list Contact) :=
  let! r := hydrated e in Ok (Data.mentions r).

Definition filename (e : Entity) : Result Failure (option string) :=
  let! r := hydrated e in Ok (Data.filename r).

Definition mimeType (e : Entity) : Result Failure (option string) :=
  let! r := hydrated e in Ok (Data.mimeType r).

Definition type (e : Entity) : Result Failure Kind :=
  let! r := hydrated e in Ok (Data.kind r).

(** Modelled from the spec: the Mention Resolver on an explicit
    identifier list.  Each identifier is looked up in listed order; one
    that does not resolve is dropped with a recorded warning. *)
Fixpoint resolveMentions (env : Collaborators) (ids : list string)
  : Op (list Contact) :=
  match ids with
  | [] => ret []
  | i :: rest =>
      match contacts env !! i with
      | Some c =>
          do! cs <- resolveMentions env rest;
          ret (c :: cs)
      | None =>
          do! _ <- warn i;
          resolveMentions env rest
      end
  end.

(** Modelled from the spec: the READY entity built from a fetched
    payload once its sender and mentions are resolved.  An unresolved
    recipient or room becomes null; attachment metadata is filled in
    for MEDIA only. *)
Definition populate (env : Collaborators) (i : string) (p : RawPayload)
    (sender : Contact) (mentions : list Contact) : Entity :=
  let media := bool_decide (raw_kind p = MEDIA) in
  mkEntity i READY
    (Some (Data.mkResolved p
             (raw_kind p) (raw_subKind p) (raw_appKind p)
             sender
             (raw_recipient p ≫= (contacts env !!.))
             (raw_room p ≫= (rooms env !!.))
             (raw_text p)
             (if media then raw_filename p else None)
             (if media then raw_extension p else "")
             (if media then raw_mimeType p else None)
             mentions
             (String.eqb (contact_id sender) (account env)))).

(** Modelled from the spec: the second half of hydration, run when the
    fetch of the payload answers.  A missing or mismatched payload is a
    [HydrationError]; an unresolved sender is a
    [DanglingReferenceError]. *)
Definition complete (env : Collaborators) : Op Entity :=
  do! s <- get;
  let e := this s in
  match payloads env !! id e with
  | None => throw HydrationError
  | Some p =>
      if negb (String.eqb (raw_id p) (id e)) then throw HydrationError
      else
        match contacts env !! raw_sender p with
        | None => throw DanglingReferenceError
        | Some sender =>
            do! mentions <- resolveMentions env (raw_mentions p);
            let e' := populate env (id e) p sender mentions in
            do! _ <- set_this e';
            ret e'
        end
  end.

(** Modelled from the spec: the first half of hydration: mark
    HYDRATING and issue the one fetch by [id]. *)
Definition begin : Op unit :=
  do! s <- get;
  let e := this s in
  do! _ <- set_this (mkEntity (id e) HYDRATING (fields e));
  record_fetch (id e).

(** Modelled from the spec: [ready()].  READY: return at once;
    HYDRATING: wait for the hydration in flight; otherwise start one. *)
Definition ready (env : Collaborators) : Op Entity :=
  do! s <- get;
  match hydrationState (this s) with
  | READY => ret (this s)
  | HYDRATING => complete env
  | RAW =>
      do! _ <- begin;
      complete env
  end.

(** Modelled from the spec: [TransportSession.send], acknowledged or
    failing with [SendFailure]. *)
Definition send (env : Collaborators) (c : Send) : Op unit :=
  do! _ <- record_send c;
  if acks env c then ret tt else throw SendFailure.

(** Modelled from the spec: what a [say] payload puts on the wire, the
    literal text or the resolved content of a hydrated entity. *)
Definition content_of (textOrMessage : string + Entity)
  : Result Failure Content :=
  match textOrMessage with
  | inl s => Ok (Text s)
  | inr m => let! r := hydrated m in Ok (Payload (Data.payload r))
  end.

(** Modelled from the spec: [say(textOrMessage, mentions?)] and its
    addressing rule. *)
Definition say (env : Collaborators) (textOrMessage : string + Entity)
    (mentions : option (list Contact)) : Op unit :=
  do! s <- get;
  do! r <- lift (hydrated (this s));
  do! c <- lift (content_of textOrMessage);
  match Data.room r with
  | Some rm => send env (mkSend (ToRoom rm) c mentions)
  | None => send env (mkSend (ToContact (Data.sender r)) c None)
  end.

(** Modelled from the spec: [forward(target)]. *)
Definition forward (env : Collaborators) (target : Target) : Op unit :=
  do! s <- get;
  do! r <- lift (hydrated (this s));
  send env (mkSend target (Payload (Data.payload r)) None).

(** The enumeration and the getters [Message.toString] needs, for the
    entities above. *)
Definition schema : Message.Schema :=
  Message.mkSchema Kind Kind_eq_dec TEXT (λ k, Some (Kind_name k)).

Definition methods : Message.Methods schema Entity Failure :=
  Message.mkMethods (sch := schema) type text filename.

(** The mention identifiers Directory Services can resolve. *)
Definition resolvable (env : Collaborators) (ids : list string) : list string :=
  filter (λ i, is_Some (contacts env !! i)) ids.

End Core.

(** ** Sample data *)

Module Sample.
Import Core.

Definition alice : Contact := mkContact "alice" "Alice".
Definition bob : Contact := mkContact "bob" "Bob".
Definition lounge : Room := mkRoom "@@lounge" "Lounge".

Definition directory : gmap string Contact :=
  {[ "alice" := alice; "bob" := bob ]}.

(** A direct text message from alice to bob. *)
Definition hi : RawPayload :=
  mkRawPayload "m1" TEXT TEXT None "alice" (Some "bob") None
               "hi" None "" None [].

(** A photo alice posts in the lounge, mentioning bob twice, alice once
    and somebody the directory does not know. *)
Definition photo : RawPayload :=
  mkRawPayload "m2" MEDIA MEDIA None "alice" None (Some "@@lounge")
               "" (Some "photo.jpg") "jpg" (Some "image/jpeg")
               ["bob"; "bob"; "carol"; "alice"].

(** A direct message from alice to dave, who has left the directory. *)
Definition orphan : RawPayload :=
  mkRawPayload "m3" TEXT TEXT None "alice" (Some "dave") None
               "bye" None "" None [].

Definition env : Collaborators :=
  mkCollaborators directory {[ "@@lounge" := lounge ]}
                  {[ "m1" := hi; "m2" := photo; "m3" := orphan ]}
                  (λ _, true) "bob".

Definition fresh (rawPayloadOrId : string + RawPayload) : State :=
  mkState (create rawPayloadOrId) [] [] [].

(** The state a completed [ready()] leaves behind. *)
Definition after_ready (rawPayloadOrId : string + RawPayload) : State :=
  snd (ready env (fresh rawPayloadOrId)).

(** The first two sample messages, hydrated. *)
Definition hi_message : Entity := this (after_ready (inl "m1")).
Definition photo_message : Entity := this (after_ready (inl "m2")).

Definition empty_world : Message.World Message.Fields :=
  Message.mkWorld [] [].

End Sample.

(** ** Instances with fixed getters *)

Module Fixture.

(** An enumeration of two values: [true] is [TEXT], [false] is a value
    the reverse mapping has no name for. *)
Definition schema : Message.Schema :=
  Message.mkSchema bool bool_eq_dec true
                   (λ b, if b then Some "TEXT" else None).

(** An instance given by what its three getters do. *)
Record Snapshot : Type := mkSnapshot {
  snap_type : Result Exception bool;
  snap_text : Result Exception string;
  snap_filename : Result Exception (option string);
}.

Definition methods : Message.Methods schema Snapshot Exception :=
  Message.mkMethods (sch := schema) snap_type snap_text snap_filename.

(** The same class with a [text()] that always throws. *)
Definition methods_without_text : Message.Methods schema Snapshot Exception :=
  Message.mkMethods (sch := schema)
    snap_type (λ _, Throw (Error "no text")) snap_filename.

(** An attachment: not [TEXT], a file name, and a [text()] that throws. *)
Definition attachment : Snapshot :=
  mkSnapshot (Ok false) (Throw (Error "no text")) (Ok (Some "a.pdf")).

(** A subclass whose own [findAll] finds nothing. *)
Definition findAll_nothing (query : JsAny)
  : M (Message.World Message.Fields) Exception (list Message.Ref) :=
  ret [].

End Fixture.

(** * Properties *)

(** ** Strings *)

Lemma prefix_append (n post : string) : String.prefix n (n +:+ post) = true.
Proof.
  induction n as [|a n IH]; simpl.
  - by destruct post.
  - destruct (Ascii.ascii_dec a a); [exact IH | congruence].
Qed.

Lemma includes_prefix (s n : string) :
  String.prefix n s = true → includes s n = true.
Proof. intros H. destruct s; simpl in *; rewrite H; done. Qed.

Lemma includes_append (pre s n : string) :
  includes s n = true → includes (pre +:+ s) n = true.
Proof.
  intros H. induction pre as [|a pre IH]; simpl; [done|].
  rewrite IH. apply orb_true_r.
Qed.

Lemma includes_label (kind body : string) :
  includes (Message.label kind body) body = true.
Proof.
  unfold Message.label.
  do 3 apply includes_append.
  apply includes_prefix, prefix_append.
Qed.

(** ** The retired accessor *)

(** C1: for every instance, of whatever subclass, and whether
    [content] is called without argument or with a string, the call
    throws the deprecation error.  It yields no value, so in particular
    not the value of [text()], and what it throws sends the caller to
    [text()]. *)
Theorem content_always_throws {E : Type} (this : E) (arg : option string) :
  Message.content this arg = Throw (Error Message.deprecated)
  ∧ (∀ v, Message.content this arg ≠ Ok v)
  ∧ includes Message.deprecated "text()" = true.
Proof.
  split_and!; [done | intros v; discriminate | by vm_compute].
Qed.

(** ** The debug label *)

Section ToString.
Context {sch : Message.Schema} {E X : Type} (m : Message.Methods sch E X).

Lemma toString_text (this : E) (body : string) :
  Message.type m this = Ok (Message.TEXT sch) →
  Message.text m this = Ok body →
  Message.toString m this
  = Ok (Message.label
          (Message.show_name (Message.WebMsgType_name sch (Message.TEXT sch)))
          body).
Proof.
  intros Ht Hb. unfold Message.toString.
  rewrite Ht; simpl. destruct (decide _) as [_|Hne]; [|done].
  by rewrite Hb.
Qed.

Lemma toString_other (this : E) (t : Message.WebMsgType sch)
    (f : option string) :
  Message.type m this = Ok t →
  t ≠ Message.TEXT sch →
  Message.filename m this = Ok f →
  Message.toString m this
  = Ok (Message.label
          (Message.show_name (Message.WebMsgType_name sch t))
          (Message.show_nullable f)).
Proof.
  intros Ht Hne Hf. unfold Message.toString.
  rewrite Ht; simpl. destruct (decide _) as [Heq|_]; [done|].
  by rewrite Hf.
Qed.

(** C2: when [type()] is [TEXT] the label [toString()] returns
    contains the value of [text()]; for every other type it contains
    the value of [filename()], a null file name being written out as
    [null]. *)
Theorem toString_includes (this : E) (t : Message.WebMsgType sch) :
  Message.type m this = Ok t →
  (t = Message.TEXT sch →
   ∀ body, Message.text m this = Ok body →
     ∃ l, Message.toString m this = Ok l ∧ includes l body = true)
  ∧ (t ≠ Message.TEXT sch →
     ∀ f, Message.filename m this = Ok f →
       ∃ l, Message.toString m this = Ok l
            ∧ includes l (Message.show_nullable f) = true).
Proof.
  intros Ht. split.
  - intros -> body Hb. eexists. split; [by apply toString_text|].
    apply includes_label.
  - intros Hne f Hf. eexists. split; [by eapply toString_other|].
    apply includes_label.
Qed.

End ToString.

(** ** [find] and [findAll] *)

Section Static.
Context {E X : Type}.
Implicit Types (this : Message.Class E X) (w : Message.World E).

Lemma findAll_inv this query w l w' :
  Message.findAll this query w = (Ok l, w') →
  ∃ m1 m2 w1,
    Message.new this [Obj Message.payload_id1] w = (Ok m1, w1)
    ∧ Message.new this [Obj Message.payload_id2] w1 = (Ok m2, w')
    ∧ l = [m1; m2].
Proof.
  unfold Message.findAll, bind, ret.
  destruct (Message.new this _ w) as [[m1|x] w1] eqn:H1; [|done].
  destruct (Message.new this _ w1) as [[m2|x] w2] eqn:H2; [|done].
  intros [= <- <-]. by exists m1, m2, w1.
Qed.

Lemma find_with_unfold (fa : JsAny → M (Message.World E) X (list Message.Ref))
    query w :
  Message.find_with fa query w
  = match fa query w with
    | (Ok l, w') => (Ok (head l), w')
    | (Throw x, w') => (Throw x, w')
    end.
Proof.
  unfold Message.find_with, bind, ret.
  destruct (fa query w) as [[l|x] w']; [|done].
  by rewrite head_lookup.
Qed.

(** C8: [find(query)] calls [findAll(query)] once and answers with the
    first element of the array it gets; a rejection of [findAll] is
    passed on. *)
Theorem find_is_first_of_findAll this query w :
  Message.find this query w
  = match Message.findAll this query w with
    | (Ok l, w') => (Ok (head l), w')
    | (Throw x, w') => (Throw x, w')
    end.
Proof. unfold Message.find. apply find_with_unfold. Qed.

(** C10: whatever [find(query)] returns is an instance, never null:
    the array it indexes comes from [findAll] and is not empty. *)
Theorem find_never_null this query w r w' :
  Message.find this query w = (Ok r, w') →
  is_Some r
  ∧ ∃ l, Message.findAll this query w = (Ok l, w') ∧ l ≠ [] ∧ r = head l.
Proof.
  unfold Message.find. rewrite find_with_unfold.
  destruct (Message.findAll this query w) as [[l|x] w1] eqn:Hfa; [|done].
  intros [= <- <-].
  destruct (findAll_inv _ _ _ _ _ Hfa) as (m1 & m2 & ? & _ & _ & ->).
  split; [by eexists|]. by eexists.
Qed.

End Static.

Lemma findAll_Message {X : Type} (query : JsAny)
    (w : Message.World Message.Fields) :
  Message.findAll (X := X) Message.Message query w
  = (Ok [length (Message.objects w); S (length (Message.objects w))],
     Message.mkWorld
       (Message.objects w
        ++ [Message.mkFields (Obj Message.payload_id1);
            Message.mkFields (Obj Message.payload_id2)])
       (Message.silly w
        ++ [Message.mkLogLine "Message" "constructor(%s) for child class %s"
              [Obj Message.payload_id1; Str "Message"];
            Message.mkLogLine "Message" "constructor(%s) for child class %s"
              [Obj Message.payload_id2; Str "Message"]])).
Proof.
  unfold Message.findAll, Message.Message, Message.constructor,
    Message.alloc, Message.log_silly, bind, modify, ret; simpl.
  rewrite length_app, Nat.add_1_r, <- !app_assoc. done.
Qed.

(** C9: [findAll(query)] does not look at [query].  It constructs an
    instance from [{ MsgId: 'id1' }], then one from [{ MsdId: 'id2' }],
    whose key is [MsdId] and not [MsgId], and returns the two in this
    order.  On [Message] both are new objects holding these payloads. *)
Theorem findAll_two_fixed_payloads {E X : Type} (this : Message.Class E X)
    (query query' : JsAny) (w0 : Message.World E)
    (w : Message.World Message.Fields) :
  Message.findAll this query w0 = Message.findAll this query' w0
  ∧ match Message.new this [Obj Message.payload_id1] w0 with
    | (Ok m1, w1) =>
        match Message.new this [Obj Message.payload_id2] w1 with
        | (Ok m2, w2) => Message.findAll this query w0 = (Ok [m1; m2], w2)
        | (Throw x, w2) => Message.findAll this query w0 = (Throw x, w2)
        end
    | (Throw x, w1) => Message.findAll this query w0 = (Throw x, w1)
    end
  ∧ (∃ m1 m2 w',
       Message.findAll (X := X) Message.Message query w = (Ok [m1; m2], w')
       ∧ m1 ≠ m2
       ∧ Message.objects w !! m1 = None
       ∧ Message.objects w !! m2 = None
       ∧ Message.objects w' !! m1
         = Some (Message.mkFields (Obj Message.payload_id1))
       ∧ Message.objects w' !! m2
         = Some (Message.mkFields (Obj Message.payload_id2))
       ∧ length (Message.objects w') = 2 + length (Message.objects w))
  ∧ Message.payload_id1 !! "MsgId" = Some "id1"
  ∧ Message.payload_id2 !! "MsdId" = Some "id2"
  ∧ Message.payload_id2 !! "MsgId" = None.
Proof.
  split_and!; try done.
  { unfold Message.findAll, bind, ret.
    destruct (Message.new this _ w0) as [[m1|x] w1]; [|done].
    by destruct (Message.new this _ w1) as [[m2|x] w2]. }
  eexists _, _, _. split; [apply findAll_Message|]. simpl.
  split_and!.
  - lia.
  - apply lookup_ge_None_2. lia.
  - apply lookup_ge_None_2. lia.
  - rewrite lookup_app_r by lia. by rewrite Nat.sub_diag.
  - rewrite lookup_app_r by lia.
    by replace (S (length (Message.objects w)) - length (Message.objects w))
      with 1 by lia.
  - rewrite length_app. simpl. lia.
Qed.

(** The first of the two is what [find] answers with on [Message]. *)
Lemma find_Message {X : Type} (query : JsAny)
    (w : Message.World Message.Fields) :
  ∃ w', Message.find (X := X) Message.Message query w
        = (Ok (Some (length (Message.objects w))), w').
Proof.
  unfold Message.find. rewrite find_with_unfold, findAll_Message.
  by eexists.
Qed.

Lemma find_never_null_witness :
  Message.find (X := Exception) Message.Message Undefined Sample.empty_world
  = (Ok (Some 0), snd (Message.findAll (X := Exception) Message.Message
                         Undefined Sample.empty_world))
  ∧ is_Some (Some 0).
Proof.
  split; [reflexivity|].
  apply (find_never_null (X := Exception) Message.Message Undefined
           Sample.empty_world (Some 0) _ eq_refl).
Defined.

(** ** Hydration *)

Section Hydration.
Import Core.
Context (env : Collaborators).
Implicit Types (s : State) (e : Entity) (p : RawPayload).

(** The resolver answers with one contact per resolvable identifier and
    only adds warnings. *)
Lemma resolveMentions_run (ids : list string) s :
  ∃ ws, resolveMentions env ids s
        = (Ok (omap (contacts env !!.) ids),
           mkState (this s) (fetches s) (outbox s) (warnings s ++ ws)).
Proof.
  revert s. induction ids as [|i rest IH]; intros s; simpl.
  - exists []. rewrite app_nil_r. by destruct s.
  - destruct (contacts env !! i) as [c|] eqn:Hi.
    + destruct (IH s) as [ws Hrun]. exists ws.
      unfold bind, ret. by rewrite Hrun.
    + unfold bind, warn, modify.
      destruct (IH (mkState (this s) (fetches s) (outbox s)
                            (warnings s ++ [i]))) as [ws Hrun].
      exists (i :: ws). rewrite Hrun; simpl.
      by rewrite <- app_assoc.
Qed.

Lemma omap_resolvable (ids : list string) :
  Forall2 (λ i c, contacts env !! i = Some c)
          (resolvable env ids) (omap (contacts env !!.) ids).
Proof.
  unfold resolvable. induction ids as [|i rest IH]; simpl; [constructor|].
  rewrite filter_cons. destruct (contacts env !! i) as [c|] eqn:Hi.
  - rewrite decide_True by by eexists.
    by constructor.
  - rewrite decide_False; [done|]. by intros [? ?].
Qed.

Lemma resolvable_all (ids : list string) :
  Forall (λ i, is_Some (contacts env !! i)) ids → resolvable env ids = ids.
Proof.
  unfold resolvable. induction 1 as [|i rest Hi _ IH]; [done|].
  rewrite filter_cons, decide_True by done. by rewrite IH.
Qed.

Lemma complete_inv s e s' :
  complete env s = (Ok e, s') →
  ∃ p sender ws,
    payloads env !! id (this s) = Some p
    ∧ raw_id p = id (this s)
    ∧ contacts env !! raw_sender p = Some sender
    ∧ e = populate env (id (this s)) p sender
            (omap (contacts env !!.) (raw_mentions p))
    ∧ s' = mkState e (fetches s) (outbox s) (warnings s ++ ws).
Proof.
  unfold complete, bind, get, throw; simpl.
  destruct (payloads env !! id (this s)) as [p|] eqn:Hp; [|done].
  destruct (String.eqb (raw_id p) (id (this s))) eqn:Hid; simpl; [|done].
  destruct (contacts env !! raw_sender p) as [sender|] eqn:Hs; [|done].
  destruct (resolveMentions_run (raw_mentions p) s) as [ws Hrun].
  rewrite Hrun. unfold set_this, modify, ret; simpl.
  intros [= <- <-]. exists p, sender, ws.
  split_and!; try done. by apply String.eqb_eq.
Qed.

(** What a successful [ready()] has done, by the marker it found. *)
Lemma ready_inv s e s' :
  ready env s = (Ok e, s') →
  this s' = e
  ∧ hydrationState e = READY
  ∧ outbox s' = outbox s
  ∧ match hydrationState (this s) with
    | READY => s' = s
    | HYDRATING => fetches s' = fetches s
    | RAW => fetches s' = fetches s ++ [id (this s)]
    end
  ∧ (hydrationState (this s) ≠ READY →
     ∃ p sender,
       payloads env !! id (this s) = Some p
       ∧ contacts env !! raw_sender p = Some sender
       ∧ e = populate env (id (this s)) p sender
               (omap (contacts env !!.) (raw_mentions p))).
Proof.
  unfold ready, bind, get; simpl.
  destruct (hydrationState (this s)) eqn:Hst.
  - unfold begin, bind, get, set_this, record_fetch, modify; simpl.
    intros H. apply complete_inv in H; simpl in H.
    destruct H as (p & sender & ws & Hp & _ & Hs & -> & ->); simpl.
    split_and!; try done. intros _. by exists p, sender.
  - intros H. apply complete_inv in H.
    destruct H as (p & sender & ws & Hp & _ & Hs & -> & ->); simpl.
    split_and!; try done. intros _. by exists p, sender.
  - unfold ret. intros [= <- <-]. by split_and!.
Qed.

(** C3: once a call of [ready()] has completed, a second call changes
    nothing: it returns the same hydrated entity, leaves every field
    and the Transport Session untouched, and the two calls together
    have fetched at most once. *)
Theorem ready_twice s e s' :
  ready env s = (Ok e, s') →
  ready env s' = (Ok e, s')
  ∧ this (snd (ready env s')) = this s'
  ∧ fetches (snd (ready env s')) = fetches s'
  ∧ (length (fetches (snd (ready env s'))) ≤ S (length (fetches s)))%nat.
Proof.
  intros H. destruct (ready_inv _ _ _ H) as (Hthis & Hst & _ & Hf & _).
  assert (Hagain : ready env s' = (Ok e, s')).
  { unfold ready, bind, get; simpl. by rewrite Hthis, Hst. }
  rewrite Hagain; simpl. split_and!; try done.
  destruct (hydrationState (this s)).
  - rewrite Hf, length_app; simpl. lia.
  - rewrite Hf. lia.
  - subst s'. lia.
Qed.

End Hydration.

(** ** Addressing *)

Section Addressing.
Import Core.
Context (env : Collaborators).
Implicit Types (s : State) (e : Entity) (p : RawPayload).

(** C5: on a hydrated entity [say] issues exactly one send.  When
    [room()] is non-null it goes to that room and carries the mentions
    given; otherwise it goes to [from()] and carries none, so that a
    direct reply with mentions behaves as the same reply without them. *)
Theorem say_addressing s (textOrMessage : string + Entity)
    (mentions : option (list Contact)) (o : option Room) (f : Contact)
    (c : Content) :
  room (this s) = Ok o →
  from (this s) = Ok f →
  content_of textOrMessage = Ok c →
  let call := match o with
              | Some rm => mkSend (ToRoom rm) c mentions
              | None => mkSend (ToContact f) c None
              end in
  outbox (snd (say env textOrMessage mentions s)) = outbox s ++ [call]
  ∧ fst (say env textOrMessage mentions s)
    = (if acks env call then Ok tt else Throw SendFailure)
  ∧ this (snd (say env textOrMessage mentions s)) = this s
  ∧ (o = None →
     say env textOrMessage mentions s = say env textOrMessage None s).
Proof.
  unfold room, from, say, bind, get, lift, send, record_send, modify; simpl.
  destruct (hydrated (this s)) as [r|x]; simpl; [|done].
  intros [= <-] [= <-] ->; simpl.
  destruct (Data.room r) as [rm|]; simpl.
  - split_and!; try done; by destruct (acks env _).
  - split_and!; try done; by destruct (acks env _).
Qed.

(** C7: before the entity is READY [forward] fails with [NotHydrated]
    and does nothing.  On a hydrated entity it issues one send to the
    target, of the payload the entity was hydrated from, and leaves the
    entity as it was, [id], [filename()] and [mimeType()] included. *)
Theorem forward_frame s (target : Target) :
  (hydrationState (this s) ≠ READY →
   forward env target s = (Throw NotHydrated, s))
  ∧ (∀ r, hydrated (this s) = Ok r →
     let s' := snd (forward env target s) in
     outbox s' = outbox s ++ [mkSend target (Payload (Data.payload r)) None]
     ∧ this s' = this s
     ∧ id (this s') = id (this s)
     ∧ filename (this s') = filename (this s)
     ∧ mimeType (this s') = mimeType (this s)
     ∧ fetches s' = fetches s).
Proof.
  unfold forward, bind, get, lift, send, record_send, modify; simpl.
  split.
  - intros Hst. unfold hydrated.
    destruct (hydrationState (this s)); try done.
  - intros r ->; simpl. by destruct (acks env _).
Qed.

(** C6: the contacts [mentioned()] lists after hydration are those of
    the payload's mention identifiers, one for each identifier
    Directory Services resolves, in the order of the payload and as
    often as the identifier occurs there. *)
Theorem mentioned_keeps_order_and_multiplicity s e s' p :
  hydrationState (this s) ≠ READY →
  ready env s = (Ok e, s') →
  payloads env !! id (this s) = Some p →
  ∃ cs,
    mentioned e = Ok cs
    ∧ Forall2 (λ i c, contacts env !! i = Some c)
              (resolvable env (raw_mentions p)) cs
    ∧ (Forall (λ i, is_Some (contacts env !! i)) (raw_mentions p) →
       Forall2 (λ i c, contacts env !! i = Some c) (raw_mentions p) cs).
Proof.
  intros Hst H Hp.
  destruct (ready_inv env _ _ _ H) as (_ & _ & _ & _ & Hpop).
  destruct (Hpop Hst) as (p' & sender & Hp' & _ & ->).
  rewrite Hp in Hp'. injection Hp' as <-.
  eexists. split; [reflexivity|]. simpl.
  split; [apply omap_resolvable|].
  intros Hall. pose proof (omap_resolvable env (raw_mentions p)) as HF.
  by rewrite (resolvable_all env _ Hall) in HF.
Qed.

End Addressing.

(** ** Worked cases *)

Example toString_hi :
  Message.toString Core.methods Sample.hi_message = Ok "Message#TEXT<hi>".
Proof. by vm_compute. Qed.

Example toString_photo :
  Message.toString Core.methods Sample.photo_message
  = Ok "Message#MEDIA<photo.jpg>".
Proof. by vm_compute. Qed.

(** Before hydration the getters throw and so does [toString]. *)
Example toString_raw :
  Message.toString Core.methods (Core.create (inl "m1"))
  = Throw Core.NotHydrated.
Proof. reflexivity. Qed.

Example mentions_alice_alice_bob :
  fst (Core.resolveMentions Sample.env ["alice"; "alice"; "bob"]
         (Sample.fresh (inl "m1")))
  = Ok [Sample.alice; Sample.alice; Sample.bob].
Proof. by vm_compute. Qed.

Example say_pong_in_room :
  Core.outbox (snd (Core.say Sample.env (inl "pong") None
                      (Sample.after_ready (inl "m2"))))
  = [Core.mkSend (Core.ToRoom Sample.lounge) (Core.Text "pong") None].
Proof. by vm_compute. Qed.

Example say_pong_direct :
  Core.outbox (snd (Core.say Sample.env (inl "pong") None
                      (Sample.after_ready (inl "m1"))))
  = [Core.mkSend (Core.ToContact Sample.alice) (Core.Text "pong") None].
Proof. by vm_compute. Qed.

Lemma toString_includes_witness :
  Message.type Core.methods Sample.hi_message = Ok Core.TEXT
  ∧ ∃ l, Message.toString Core.methods Sample.hi_message = Ok l
         ∧ includes l "hi" = true.
Proof.
  split; [reflexivity|].
  apply (proj1 (toString_includes Core.methods Sample.hi_message Core.TEXT
                  eq_refl) eq_refl "hi" eq_refl).
Defined.

Lemma ready_twice_witness :
  Core.ready Sample.env (Sample.fresh (inl "m2"))
  = (Ok Sample.photo_message, Sample.after_ready (inl "m2"))
  ∧ Core.ready Sample.env (Sample.after_ready (inl "m2"))
    = (Ok Sample.photo_message, Sample.after_ready (inl "m2")).
Proof.
  split; [reflexivity|].
  apply (ready_twice Sample.env (Sample.fresh (inl "m2"))
           Sample.photo_message (Sample.after_ready (inl "m2")) eq_refl).
Defined.

Lemma say_addressing_witness :
  Core.room (Core.this (Sample.after_ready (inl "m2")))
  = Ok (Some Sample.lounge)
  ∧ Core.from (Core.this (Sample.after_ready (inl "m2"))) = Ok Sample.alice
  ∧ Core.content_of (inl "pong") = Ok (Core.Text "pong")
  ∧ Core.outbox (snd (Core.say Sample.env (inl "pong") (Some [Sample.bob])
                        (Sample.after_ready (inl "m2"))))
    = Core.outbox (Sample.after_ready (inl "m2"))
      ++ [Core.mkSend (Core.ToRoom Sample.lounge) (Core.Text "pong")
                      (Some [Sample.bob])].
Proof.
  do 3 (split; [reflexivity|]).
  apply (say_addressing Sample.env (Sample.after_ready (inl "m2"))
           (inl "pong") (Some [Sample.bob]) (Some Sample.lounge) Sample.alice
           (Core.Text "pong") eq_refl eq_refl eq_refl).
Defined.

Lemma forward_frame_witness :
  (Core.hydrationState (Core.this (Sample.fresh (inl "m2"))) ≠ Core.READY
   ∧ Core.forward Sample.env (Core.ToRoom Sample.lounge)
       (Sample.fresh (inl "m2"))
     = (Throw Core.NotHydrated, Sample.fresh (inl "m2")))
  ∧ (Core.filename Sample.photo_message = Ok (Some "photo.jpg")
     ∧ Core.outbox (snd (Core.forward Sample.env (Core.ToRoom Sample.lounge)
                           (Sample.after_ready (inl "m2"))))
       = [Core.mkSend (Core.ToRoom Sample.lounge) (Core.Payload Sample.photo)
                      None]
     ∧ Core.this (snd (Core.forward Sample.env (Core.ToRoom Sample.lounge)
                         (Sample.after_ready (inl "m2"))))
       = Sample.photo_message).
Proof.
  assert (Hraw : Core.hydrationState (Core.this (Sample.fresh (inl "m2")))
                 ≠ Core.READY) by discriminate.
  split; [split; [exact Hraw|] | split; [reflexivity|]].
  - apply (proj1 (forward_frame Sample.env (Sample.fresh (inl "m2"))
                    (Core.ToRoom Sample.lounge)) Hraw).
  - destruct (Core.hydrated Sample.photo_message) as [r|x] eqn:Hr;
      [|discriminate Hr].
    destruct (proj2 (forward_frame Sample.env (Sample.after_ready (inl "m2"))
                       (Core.ToRoom Sample.lounge)) r Hr)
      as (Hout & Hthis & _).
    split; [|exact Hthis].
    rewrite Hout. injection Hr as <-. reflexivity.
Defined.

Lemma mentioned_keeps_order_and_multiplicity_witness :
  Core.hydrationState (Core.this (Sample.fresh (inl "m2"))) ≠ Core.READY
  ∧ Core.ready Sample.env (Sample.fresh (inl "m2"))
    = (Ok Sample.photo_message, Sample.after_ready (inl "m2"))
  ∧ Core.payloads Sample.env !! Core.id (Core.this (Sample.fresh (inl "m2")))
    = Some Sample.photo
  ∧ ∃ cs, Core.mentioned Sample.photo_message = Ok cs
          ∧ Forall2 (λ i c, Core.contacts Sample.env !! i = Some c)
                    (Core.resolvable Sample.env (Core.raw_mentions Sample.photo))
                    cs.
Proof.
  assert (Hraw : Core.hydrationState (Core.this (Sample.fresh (inl "m2")))
                 ≠ Core.READY) by discriminate.
  split_and!; [exact Hraw | reflexivity | reflexivity |].
  destruct (mentioned_keeps_order_and_multiplicity Sample.env
              (Sample.fresh (inl "m2")) Sample.photo_message
              (Sample.after_ready (inl "m2")) Sample.photo
              Hraw eq_refl eq_refl) as (cs & Hm & HF & _).
  by exists cs.
Defined.

(** * Further properties of the concrete members *)

(** ** The constructor and [create] *)

Lemma constructor_run {X : Type} (child : string) (args : list JsAny)
    (w : Message.World Message.Fields) :
  Message.constructor (X := X) child args w
  = (Ok (length (Message.objects w)),
     Message.mkWorld
       (Message.objects w ++ [Message.mkFields (arg args 0)])
       (Message.silly w
        ++ [Message.mkLogLine "Message" "constructor(%s) for child class %s"
              [or (arg args 0) (Str ""); Str child]])).
Proof. reflexivity. Qed.

(** X1: [create(...args)] on [Message] never throws.  It returns a
    reference that named no object before, the object behind it holds
    the first argument as [fileOrPayload], and every object that existed
    before is still there unchanged. *)
Theorem create_allocates {X : Type} (args : list JsAny)
    (w : Message.World Message.Fields) :
  ∃ r w',
    Message.create (X := X) Message.Message args w = (Ok r, w')
    ∧ Message.objects w !! r = None
    ∧ Message.objects w' !! r = Some (Message.mkFields (arg args 0))
    ∧ (∀ i e, Message.objects w !! i = Some e →
              Message.objects w' !! i = Some e)
    ∧ length (Message.objects w') = S (length (Message.objects w)).
Proof.
  eexists _, _. split.
  { unfold Message.create, Message.Message; simpl. apply constructor_run. }
  simpl. split_and!.
  - by apply lookup_ge_None_2.
  - rewrite lookup_app_r by lia. by rewrite Nat.sub_diag.
  - intros i e Hi. by apply lookup_app_l_Some.
  - rewrite length_app; simpl. lia.
Qed.

(** X2: the constructor of [Message] reads its first argument only:
    [create] with further arguments behaves as with the first alone,
    and [create()] as [create(undefined)]. *)
Theorem create_reads_first_argument {X : Type} (a : JsAny)
    (rest : list JsAny) (w : Message.World Message.Fields) :
  Message.create (X := X) Message.Message (a :: rest) w
  = Message.create Message.Message [a] w
  ∧ Message.create (X := X) Message.Message [] w
    = Message.create Message.Message [Undefined] w.
Proof.
  unfold Message.create, Message.Message; simpl.
  by rewrite !constructor_run.
Qed.

(** X3: the constructor logs one line.  The value logged for the
    payload is the first argument when that is truthy and the empty
    string otherwise, so it is never [undefined], [null], [false] or
    [0]; the second value is the name of the class. *)
Theorem constructor_logs_payload_or_empty {X : Type} (child : string)
    (args : list JsAny) (w : Message.World Message.Fields) :
  ∃ v,
    Message.silly (snd (Message.constructor (X := X) child args w))
    = Message.silly w
      ++ [Message.mkLogLine "Message" "constructor(%s) for child class %s"
            [v; Str child]]
    ∧ (truthy (arg args 0) = true → v = arg args 0)
    ∧ (truthy (arg args 0) = false → v = Str "")
    ∧ v ≠ Undefined ∧ v ≠ Null ∧ v ≠ Bool false ∧ v ≠ Num 0.
Proof.
  exists (or (arg args 0) (Str "")). rewrite constructor_run; simpl.
  unfold or. split; [done|].
  destruct (truthy (arg args 0)) eqn:Ht.
  - split_and!; try done; intros Heq; by rewrite Heq in Ht.
  - by split_and!.
Qed.

(** ** [find] and [findAll] across calls *)

(** X4: [find(query)] on [Message] never throws and returns a new
    object built from [{ MsgId: 'id1' }]; to do so it constructs both
    instances of [findAll], so that two objects and two log lines are
    added, after the ones that were there. *)
Theorem find_Message_effects {X : Type} (query : JsAny)
    (w : Message.World Message.Fields) :
  ∃ r w',
    Message.find (X := X) Message.Message query w = (Ok (Some r), w')
    ∧ Message.objects w !! r = None
    ∧ Message.objects w' !! r
      = Some (Message.mkFields (Obj Message.payload_id1))
    ∧ Message.objects w `prefix_of` Message.objects w'
    ∧ Message.silly w `prefix_of` Message.silly w'
    ∧ length (Message.objects w') = 2 + length (Message.objects w)
    ∧ length (Message.silly w') = 2 + length (Message.silly w).
Proof.
  eexists _, _. split.
  { unfold Message.find. by rewrite find_with_unfold, findAll_Message. }
  simpl. split_and!.
  - by apply lookup_ge_None_2.
  - rewrite lookup_app_r by lia. by rewrite Nat.sub_diag.
  - by eexists.
  - by eexists.
  - rewrite length_app; simpl. lia.
  - rewrite length_app; simpl. lia.
Qed.

(** X5: two calls of [findAll] on [Message], one after the other, share
    no instance: the four references are pairwise different, and the
    second call leaves the objects of the first as they were. *)
Theorem findAll_calls_disjoint {X : Type} (q1 q2 : JsAny)
    (w w1 w2 : Message.World Message.Fields) (l1 l2 : list Message.Ref) :
  Message.findAll (X := X) Message.Message q1 w = (Ok l1, w1) →
  Message.findAll (X := X) Message.Message q2 w1 = (Ok l2, w2) →
  NoDup (l1 ++ l2)
  ∧ (∀ r, r ∈ l1 → r ∉ l2)
  ∧ (∀ r, r ∈ l1 → is_Some (Message.objects w1 !! r)
                   ∧ Message.objects w2 !! r = Message.objects w1 !! r).
Proof.
  rewrite findAll_Message. intros [= <- <-].
  rewrite findAll_Message. intros [= <- <-]. simpl.
  rewrite !length_app; simpl.
  assert (Hin : ∀ r, r ∈ [length (Message.objects w);
                          S (length (Message.objects w))] →
                 r = length (Message.objects w)
                 ∨ r = S (length (Message.objects w))).
  { intros r. rewrite elem_of_cons, list_elem_of_singleton. tauto. }
  split_and!.
  - rewrite !NoDup_cons, !not_elem_of_cons, !elem_of_nil, NoDup_nil.
    split_and!; try done; lia.
  - intros r Hr.
    rewrite not_elem_of_cons, list_elem_of_singleton.
    destruct (Hin r Hr) as [-> | ->]; lia.
  - intros r Hr. split.
    + apply lookup_lt_is_Some. rewrite length_app; simpl.
      destruct (Hin r Hr) as [-> | ->]; lia.
    + apply lookup_app_l. rewrite length_app; simpl.
      destruct (Hin r Hr) as [-> | ->]; lia.
Qed.

(** X6: [find] keeps no instance between calls: a second [find] on
    [Message] returns a different object from the first. *)
Theorem find_twice_distinct {X : Type} (q1 q2 : JsAny)
    (w w1 w2 : Message.World Message.Fields) (r1 r2 : option Message.Ref) :
  Message.find (X := X) Message.Message q1 w = (Ok r1, w1) →
  Message.find (X := X) Message.Message q2 w1 = (Ok r2, w2) →
  is_Some r1 ∧ is_Some r2 ∧ r1 ≠ r2.
Proof.
  unfold Message.find. rewrite !find_with_unfold.
  rewrite findAll_Message. intros [= <- <-].
  rewrite findAll_Message. intros [= <- <-]. simpl.
  rewrite length_app; simpl.
  split_and!; [by eexists | by eexists |].
  intros [= Heq]. lia.
Qed.

(** X7: [find] asks [this.findAll], so on a subclass with a [findAll]
    of its own it returns no element exactly when that [findAll]
    answers with an empty array, and it rejects with whatever that
    [findAll] rejects with. *)
Theorem find_with_empty {E X : Type}
    (this_findAll : JsAny → M (Message.World E) X (list Message.Ref))
    (query : JsAny) (w w' : Message.World E) :
  (∀ l, this_findAll query w = (Ok l, w') →
     ∃ r, Message.find_with this_findAll query w = (Ok r, w')
          ∧ (r = None ↔ l = []))
  ∧ (∀ x, this_findAll query w = (Throw x, w') →
       Message.find_with this_findAll query w = (Throw x, w')).
Proof.
  split.
  - intros l Hl. exists (head l). rewrite find_with_unfold, Hl.
    split; [done|]. by destruct l.
  - intros x Hx. by rewrite find_with_unfold, Hx.
Qed.

Lemma findAll_calls_disjoint_witness :
  Message.findAll (X := Exception) Message.Message Undefined
    Sample.empty_world
  = (Ok [0; 1], snd (Message.findAll (X := Exception) Message.Message
                       Undefined Sample.empty_world))
  ∧ Message.findAll (X := Exception) Message.Message Null
      (snd (Message.findAll (X := Exception) Message.Message Undefined
              Sample.empty_world))
    = (Ok [2; 3],
       snd (Message.findAll (X := Exception) Message.Message Null
              (snd (Message.findAll (X := Exception) Message.Message
                      Undefined Sample.empty_world))))
  ∧ NoDup ([0; 1] ++ [2; 3]).
Proof.
  do 2 (split; [reflexivity|]).
  apply (findAll_calls_disjoint (X := Exception) Undefined Null
           Sample.empty_world _ _ [0; 1] [2; 3] eq_refl eq_refl).
Defined.

Lemma find_twice_distinct_witness :
  Message.find (X := Exception) Message.Message Undefined Sample.empty_world
  = (Ok (Some 0), snd (Message.find (X := Exception) Message.Message
                         Undefined Sample.empty_world))
  ∧ Message.find (X := Exception) Message.Message Undefined
      (snd (Message.find (X := Exception) Message.Message Undefined
              Sample.empty_world))
    = (Ok (Some 2),
       snd (Message.find (X := Exception) Message.Message Undefined
              (snd (Message.find (X := Exception) Message.Message Undefined
                      Sample.empty_world))))
  ∧ Some 0 ≠ Some 2.
Proof.
  do 2 (split; [reflexivity|]).
  apply (find_twice_distinct (X := Exception) Undefined Undefined
           Sample.empty_world _ _ (Some 0) (Some 2) eq_refl eq_refl).
Defined.

Lemma find_with_empty_witness :
  Fixture.findAll_nothing Undefined Sample.empty_world
  = (Ok [], Sample.empty_world)
  ∧ ∃ r, Message.find_with Fixture.findAll_nothing Undefined
           Sample.empty_world
         = (Ok r, Sample.empty_world)
         ∧ (r = None ↔ @nil Message.Ref = []).
Proof.
  split; [reflexivity|].
  apply (proj1 (find_with_empty Fixture.findAll_nothing Undefined
                  Sample.empty_world Sample.empty_world) [] eq_refl).
Defined.

(** ** [toString] and the getters it consults *)

Section ToStringGetters.
Context {sch : Message.Schema} {E X : Type}.
Implicit Types (m : Message.Methods sch E X) (this : E).

Lemma toString_inv m this (l : string) :
  Message.toString m this = Ok l →
  ∃ t body,
    Message.type m this = Ok t
    ∧ l = Message.label
            (Message.show_name (Message.WebMsgType_name sch t)) body
    ∧ ((t = Message.TEXT sch ∧ Message.text m this = Ok body)
       ∨ (t ≠ Message.TEXT sch
          ∧ ∃ f, Message.filename m this = Ok f
                 ∧ body = Message.show_nullable f)).
Proof.
  unfold Message.toString.
  destruct (Message.type m this) as [t|x] eqn:Ht; simpl; [|done].
  destruct (decide _) as [Heq|Hne].
  - destruct (Message.text m this) as [b|x]; simpl; [|done].
    intros [= <-]. exists t, b. split_and!; try done. by left.
  - destruct (Message.filename m this) as [f|x]; simpl; [|done].
    intros [= <-]. exists t, (Message.show_nullable f).
    split_and!; try done. right. split; [done|]. by exists f.
Qed.

(** X8: [toString()] returns a label exactly when [type()] returns and
    the one getter the type selects returns too, [text()] for [TEXT]
    and [filename()] otherwise; an exception of [type()] is the one
    [toString()] throws. *)
Theorem toString_returns_iff m this :
  ((∃ l, Message.toString m this = Ok l)
   ↔ ∃ t, Message.type m this = Ok t
          ∧ (t = Message.TEXT sch → ∃ b, Message.text m this = Ok b)
          ∧ (t ≠ Message.TEXT sch → ∃ f, Message.filename m this = Ok f))
  ∧ (∀ x, Message.type m this = Throw x →
          Message.toString m this = Throw x).
Proof.
  split; [split|].
  - intros [l Hl].
    destruct (toString_inv _ _ _ Hl)
      as (t & body & Ht & _ & [[-> Hb] | [Hne (f & Hf & _)]]).
    + exists (Message.TEXT sch). split_and!; [done | by eexists | done].
    + exists t. split_and!; [done | done | by eexists].
  - intros (t & Ht & Htext & Hfile).
    destruct (Message.WebMsgType_eq sch t (Message.TEXT sch)) as [-> | Hne].
    + destruct (Htext eq_refl) as [b Hb]. eexists.
      by apply toString_text.
    + destruct (Hfile Hne) as [f Hf]. eexists.
      by eapply toString_other.
  - intros x Hx. unfold Message.toString. by rewrite Hx.
Qed.

(** X9: [toString()] calls only the getter its type selects.  For a
    type other than [TEXT] it is the same whatever [text()] does, even
    when [text()] throws; for [TEXT] it is the same whatever
    [filename()] does. *)
Theorem toString_ignores_other_getter m (m' : Message.Methods sch E X)
    this (t : Message.WebMsgType sch) :
  Message.type m this = Ok t →
  Message.type m' this = Ok t →
  (t ≠ Message.TEXT sch →
   Message.filename m this = Message.filename m' this →
   Message.toString m this = Message.toString m' this)
  ∧ (t = Message.TEXT sch →
     Message.text m this = Message.text m' this →
     Message.toString m this = Message.toString m' this).
Proof.
  intros Ht Ht'. unfold Message.toString. rewrite Ht, Ht'; simpl.
  split.
  - intros Hne Hf. destruct (decide _) as [Heq|_]; [done|]. by rewrite Hf.
  - intros Heq Hb. destruct (decide _) as [_|Hne]; [|done]. by rewrite Hb.
Qed.

(** X10: every label [toString()] returns begins with [Message#] and
    contains the name the enumeration has for the type, which is
    [undefined] when the reverse mapping has none. *)
Theorem toString_label_shape m this (l : string) :
  Message.toString m this = Ok l →
  ∃ t,
    Message.type m this = Ok t
    ∧ String.prefix "Message#" l = true
    ∧ includes l (Message.show_name (Message.WebMsgType_name sch t)) = true
    ∧ (Message.WebMsgType_name sch t = None →
       includes l "undefined" = true).
Proof.
  intros Hl.
  destruct (toString_inv _ _ _ Hl) as (t & body & Ht & -> & _).
  exists t. split; [done|].
  assert (Hname :
    includes (Message.label
                (Message.show_name (Message.WebMsgType_name sch t)) body)
             (Message.show_name (Message.WebMsgType_name sch t)) = true).
  { unfold Message.label. apply includes_append.
    apply includes_prefix, prefix_append. }
  split_and!.
  - unfold Message.label. apply prefix_append.
  - exact Hname.
  - intros Hnone. rewrite Hnone in Hname |- *. exact Hname.
Qed.

End ToStringGetters.

Lemma toString_ignores_other_getter_witness :
  Message.type Fixture.methods Fixture.attachment = Ok false
  ∧ Message.type Fixture.methods_without_text Fixture.attachment = Ok false
  ∧ false ≠ Message.TEXT Fixture.schema
  ∧ Message.toString Fixture.methods Fixture.attachment
    = Message.toString Fixture.methods_without_text Fixture.attachment.
Proof.
  assert (Hne : false ≠ Message.TEXT Fixture.schema) by discriminate.
  do 2 (split; [reflexivity|]). split; [exact Hne|].
  apply (proj1 (toString_ignores_other_getter Fixture.methods
                  Fixture.methods_without_text Fixture.attachment false
                  eq_refl eq_refl) Hne eq_refl).
Defined.

Lemma toString_label_shape_witness :
  Message.toString Fixture.methods Fixture.attachment
  = Ok "Message#undefined<a.pdf>"
  ∧ ∃ t, Message.type Fixture.methods Fixture.attachment = Ok t
         ∧ String.prefix "Message#" "Message#undefined<a.pdf>" = true
         ∧ includes "Message#undefined<a.pdf>"
             (Message.show_name
                (Message.WebMsgType_name Fixture.schema t)) = true
         ∧ (Message.WebMsgType_name Fixture.schema t = None →
            includes "Message#undefined<a.pdf>" "undefined" = true).
Proof.
  split; [reflexivity|].
  apply (toString_label_shape Fixture.methods Fixture.attachment
           "Message#undefined<a.pdf>" eq_refl).
Defined.

Lemma toString_returns_iff_witness :
  Message.type Fixture.methods
    (Fixture.mkSnapshot (Throw (Error "gone")) (Ok "hi") (Ok None))
  = Throw (Error "gone")
  ∧ Message.toString Fixture.methods
      (Fixture.mkSnapshot (Throw (Error "gone")) (Ok "hi") (Ok None))
    = Throw (Error "gone").
Proof.
  split; [reflexivity|].
  apply (proj2 (toString_returns_iff Fixture.methods
                  (Fixture.mkSnapshot (Throw (Error "gone")) (Ok "hi")
                     (Ok None))) (Error "gone") eq_refl).
Defined.
